(** * MB::ModbusCell (include/MB/modbusCell.hpp)

    A shallow embedding of the cell class of the Modbus library and the
    properties of its constructors, kind predicates, coercing accessors,
    strict accessors and string rendering.

    Conventions.
    - [uint16_t] and [uint8_t] are carried by [Z]; the range of each type is
      the predicate [in_u16] / [in_u8], and every conversion to one of them
      writes its reduction modulo 2^16 / 2^8 out.
    - [std::variant<uint16_t, uint8_t, bool>] is the three-constructor type
      [variant]; [std::holds_alternative<T>] and [std::get<T>] are indexed by
      the alternative [alt].
    - A non-const member function is a computation of the monad [M]: it
      receives the cell ([*this]), and yields a result or the exception in
      flight together with the cell as it is left.
    - A const member function cannot write to the cell, so it is a function
      of the cell alone, lifted to [M] with [const_call] where it is
      sequenced with the others. *)

From Stdlib Require Import ZArith Bool String List Lia.
From Stdlib Require Import Decimal DecimalString DecimalPos DecimalZ.

Local Open Scope string_scope.
Local Open Scope Z_scope.

Module MB.

(** ** Fixed-width integers and conversions *)

Definition uint16_t := Z.
Definition uint8_t := Z.

Definition in_u16 (z : Z) : Prop := 0 <= z < 2 ^ 16.
Definition in_u8 (z : Z) : Prop := 0 <= z < 2 ^ 8.

(** [static_cast<uint16_t>(z)] and [static_cast<uint8_t>(z)] of an integer:
    the value modulo 2^16, respectively 2^8. *)
Definition cast_u16 (z : Z) : uint16_t := z mod 2 ^ 16.
Definition cast_u8 (z : Z) : uint8_t := z mod 2 ^ 8.

(** [static_cast<bool>(z)]: zero is [false], everything else [true]. *)
Definition cast_bool (z : Z) : bool := negb (z =? 0).

(** The integer a [bool] converts to. *)
Definition Z_of_bool (b : bool) : Z := if b then 1 else 0.

(** [std::to_string(int)], which both [uint16_t] and [uint8_t] arguments
    select after integral promotion: the decimal digits, a leading minus
    sign for a negative number. *)
Definition to_string (z : Z) : string := NilZero.string_of_int (Z.to_int z).

(** Reading a decimal numeral back. *)
Definition of_string (s : string) : option Z :=
  option_map Z.of_int (NilZero.int_of_string s).

(** ** Exceptions and results *)

Inductive exn : Set := bad_variant_access.

Inductive result (A : Type) : Type :=
| Ok (a : A)
| Throw (e : exn).
Arguments Ok {A} a.
Arguments Throw {A} e.

Definition is_ok {A} (r : result A) : bool :=
  match r with Ok _ => true | Throw _ => false end.

(** ** std::variant<uint16_t, uint8_t, bool> *)

Inductive alt : Set := T_uint16 | T_uint8 | T_bool.

Definition alt_eqb (a b : alt) : bool :=
  match a, b with
  | T_uint16, T_uint16 | T_uint8, T_uint8 | T_bool, T_bool => true
  | _, _ => false
  end.

Definition type_of (T : alt) : Type :=
  match T with
  | T_uint16 => uint16_t
  | T_uint8 => uint8_t
  | T_bool => bool
  end.

Inductive variant : Type :=
| V_uint16 (r : uint16_t)
| V_uint8 (v : uint8_t)
| V_bool (b : bool).

(** The alternative a variant holds ([variant::index], as a type). *)
Definition active (x : variant) : alt :=
  match x with
  | V_uint16 _ => T_uint16
  | V_uint8 _ => T_uint8
  | V_bool _ => T_bool
  end.

(** Default construction value-initialises the first alternative. *)
Definition variant_default : variant := V_uint16 0.

(** Construction and assignment from a value of the alternative [T]. *)
Definition variant_of (T : alt) : type_of T -> variant :=
  match T with
  | T_uint16 => V_uint16
  | T_uint8 => V_uint8
  | T_bool => V_bool
  end.

Definition holds_alternative (T : alt) (x : variant) : bool :=
  alt_eqb T (active x).

(** [std::get<T>]: the stored value when [T] is the active alternative,
    [std::bad_variant_access] otherwise. *)
Definition get (T : alt) : variant -> result (type_of T) :=
  match T return variant -> result (type_of T) with
  | T_uint16 => fun x =>
      match x with V_uint16 r => Ok r | _ => Throw bad_variant_access end
  | T_uint8 => fun x =>
      match x with V_uint8 v => Ok v | _ => Throw bad_variant_access end
  | T_bool => fun x =>
      match x with V_bool b => Ok b | _ => Throw bad_variant_access end
  end.

(** ** The class *)

Record ModbusCell : Type := mkCell { _value : variant }.

(** The values of the stored integer lie in the range of its type. *)
Definition wf (c : ModbusCell) : Prop :=
  match _value c with
  | V_uint16 r => in_u16 r
  | V_uint8 v => in_u8 v
  | V_bool _ => True
  end.

(** *** Member-function monad: state [*this], exception [exn] *)

Definition M (A : Type) : Type := ModbusCell -> result A * ModbusCell.

Definition ret {A} (a : A) : M A := fun c => (Ok a, c).

Definition bind {A B} (m : M A) (f : A -> M B) : M B :=
  fun c =>
    match m c with
    | (Ok a, c') => f a c'
    | (Throw e, c') => (Throw e, c')
    end.

Notation "x <- m ;; k" := (bind m (fun x => k))
  (at level 61, m at next level, right associativity).
Notation "m ;;; k" := (bind m (fun _ => k))
  (at level 61, right associativity).

(** A call of a const member function: the cell is passed on as it is. *)
Definition const_call {A} (f : ModbusCell -> A) : M A :=
  fun c => (Ok (f c), c).

(** A call of a const member function that may throw. *)
Definition const_try {A} (f : ModbusCell -> result A) : M A :=
  fun c => (f c, c).

(** [_value = x;] *)
Definition assign_value (x : variant) : M unit :=
  fun _ => (Ok tt, mkCell x).

(** [std::get<T>(_value)] inside a member function. *)
Definition get_value (T : alt) : M (type_of T) :=
  const_try (fun c => get T (_value c)).

Definition ifM {A} (b : M bool) (t e : M A) : M A :=
  x <- b ;; if x then t else e.

(** *** Constructors *)

(** [constexpr ModbusCell() = default;] *)
Definition ModbusCell_default : ModbusCell := mkCell variant_default.

(** [constexpr ModbusCell(uint16_t reg) : _value(reg) {}] *)
Definition ModbusCell_reg (reg : uint16_t) : ModbusCell :=
  mkCell (variant_of T_uint16 reg).

(** [constexpr ModbusCell(bool coil) : _value(coil) {}] *)
Definition ModbusCell_coil (coil : bool) : ModbusCell :=
  mkCell (variant_of T_bool coil).

(** [constexpr ModbusCell(uint8_t val) : _value(val) {}] *)
Definition ModbusCell_val (val : uint8_t) : ModbusCell :=
  mkCell (variant_of T_uint8 val).

Definition initReg (reg : uint16_t) : ModbusCell := ModbusCell_reg reg.
Definition initCoil (coil : bool) : ModbusCell := ModbusCell_coil coil.
Definition initVal (val : uint8_t) : ModbusCell := ModbusCell_val val.

(** *** Kind predicates (const) *)

Definition isCoil (c : ModbusCell) : bool := holds_alternative T_bool (_value c).
Definition isReg (c : ModbusCell) : bool := holds_alternative T_uint16 (_value c).
Definition isVal (c : ModbusCell) : bool := holds_alternative T_uint8 (_value c).

(** *** Coercing accessors (non-const overloads) *)

(** [bool &coil()] *)
Definition coil : M bool :=
  ifM (const_call isReg)
      (r <- get_value T_uint16 ;; assign_value (variant_of T_bool (cast_bool r)))
      (ifM (const_call isVal)
           (v <- get_value T_uint8 ;; assign_value (variant_of T_bool (cast_bool v)))
           (ret tt)) ;;;
  get_value T_bool.

(** [uint16_t &reg()] *)
Definition reg : M uint16_t :=
  ifM (const_call isCoil)
      (b <- get_value T_bool ;; assign_value (variant_of T_uint16 (cast_u16 (Z_of_bool b))))
      (ifM (const_call isVal)
           (v <- get_value T_uint8 ;; assign_value (variant_of T_uint16 (cast_u16 v)))
           (ret tt)) ;;;
  get_value T_uint16.

(** [uint8_t &val()] *)
Definition val : M uint8_t :=
  ifM (const_call isCoil)
      (b <- get_value T_bool ;; assign_value (variant_of T_uint8 (cast_u8 (Z_of_bool b))))
      (ifM (const_call isReg)
           (r <- get_value T_uint16 ;; assign_value (variant_of T_uint8 (cast_u8 r)))
           (ret tt)) ;;;
  get_value T_uint8.

(** *** Strict accessors (const overloads) *)

(** [const bool &coil() const] *)
Definition coil_const (c : ModbusCell) : result bool := get T_bool (_value c).

(** [const uint16_t &reg() const] *)
Definition reg_const (c : ModbusCell) : result uint16_t := get T_uint16 (_value c).

(** [const uint8_t &val() const] *)
Definition val_const (c : ModbusCell) : result uint8_t := get T_uint8 (_value c).

(** *** String rendering *)

Definition rmap {A B} (f : A -> B) (r : result A) : result B :=
  match r with Ok a => Ok (f a) | Throw e => Throw e end.

(** [std::string toString() const noexcept]; a [Throw] here would be an
    exception leaving a [noexcept] function. *)
Definition toString (c : ModbusCell) : result string :=
  if isCoil c
  then rmap (fun b : bool => if b then "true" else "false") (coil_const c)
  else if isReg c
       then rmap to_string (reg_const c)
       else rmap to_string (val_const c).

(** *** Use of the class

    What a caller can do with a cell. A coercing accessor returns a
    reference to the alternative that is active when it returns; an
    assignment through that reference ([c.coil() = b;]) replaces the value
    of this alternative. *)

Definition coil_store (b : bool) : M unit :=
  coil ;;; assign_value (variant_of T_bool b).

Definition reg_store (r : uint16_t) : M unit :=
  reg ;;; assign_value (variant_of T_uint16 r).

Definition val_store (v : uint8_t) : M unit :=
  val ;;; assign_value (variant_of T_uint8 v).

(** [ModbusCell &operator=(const ModbusCell &other) = default;] *)
Definition operator_assign (other : ModbusCell) : M unit :=
  fun _ => (Ok tt, other).

(** The cell a computation leaves behind. *)
Definition effect {A} (m : M A) (c : ModbusCell) : ModbusCell := snd (m c).

Inductive op : Type :=
| call_isCoil | call_isReg | call_isVal
| call_coil | call_reg | call_val
| call_coil_store (b : bool)
| call_reg_store (r : uint16_t)
| call_val_store (v : uint8_t)
| call_coil_const | call_reg_const | call_val_const
| call_toString.

(** The arguments of an operation are values of their C++ types. *)
Definition op_wf (o : op) : Prop :=
  match o with
  | call_reg_store r => in_u16 r
  | call_val_store v => in_u8 v
  | _ => True
  end.

Definition exec (o : op) : ModbusCell -> ModbusCell :=
  match o with
  | call_isCoil => effect (const_call isCoil)
  | call_isReg => effect (const_call isReg)
  | call_isVal => effect (const_call isVal)
  | call_coil => effect coil
  | call_reg => effect reg
  | call_val => effect val
  | call_coil_store b => effect (coil_store b)
  | call_reg_store r => effect (reg_store r)
  | call_val_store v => effect (val_store v)
  | call_coil_const => effect (const_try coil_const)
  | call_reg_const => effect (const_try reg_const)
  | call_val_const => effect (const_try val_const)
  | call_toString => effect (const_try toString)
  end.

(** The cells a program can hold: constructed, then operated on. *)
Inductive reachable : ModbusCell -> Prop :=
| reach_default : reachable ModbusCell_default
| reach_reg r : in_u16 r -> reachable (ModbusCell_reg r)
| reach_coil b : reachable (ModbusCell_coil b)
| reach_val v : in_u8 v -> reachable (ModbusCell_val v)
| reach_exec o c : reachable c -> op_wf o -> reachable (exec o c)
| reach_assign c other :
    reachable c -> reachable other -> reachable (effect (operator_assign other) c).

(** Exactly one of three booleans holds. *)
Definition exactly_one (a b c : bool) : bool :=
  (a && negb b && negb c) || (negb a && b && negb c) || (negb a && negb b && c).

Definition kind_inv (c : ModbusCell) : Prop :=
  exactly_one (isCoil c) (isReg c) (isVal c) = true.

(** *** Sequences of accessor calls *)

(** The number a cell stands for; a coil counts as 0 or 1. *)
Definition stored (c : ModbusCell) : Z :=
  match _value c with
  | V_uint16 r => r
  | V_uint8 v => v
  | V_bool b => Z_of_bool b
  end.

(** A call of the coercing accessor of the kind [T] whose returned
    reference is dropped: [c.reg();], [c.val();], [c.coil();]. *)
Definition coerce (T : alt) : M unit :=
  match T with
  | T_uint16 => reg ;;; ret tt
  | T_uint8 => val ;;; ret tt
  | T_bool => coil ;;; ret tt
  end.

(** Such calls one after the other, the head of the list first. *)
Fixpoint coerce_all (l : list alt) : M unit :=
  match l with
  | nil => ret tt
  | T :: l' => coerce T ;;; coerce_all l'
  end.

(** A cell that holds the boolean [b], as a coil or as the number of [b]. *)
Definition reads_as (b : bool) (c : ModbusCell) : Prop :=
  c = ModbusCell_coil b \/
  c = ModbusCell_reg (Z_of_bool b) \/
  c = ModbusCell_val (Z_of_bool b).

(** ** Auxiliary facts *)

Lemma cast_u16_range z : in_u16 (cast_u16 z).
Proof. unfold in_u16, cast_u16. apply Z.mod_pos_bound. lia. Qed.

Lemma cast_u8_range z : in_u8 (cast_u8 z).
Proof. unfold in_u8, cast_u8. apply Z.mod_pos_bound. lia. Qed.

Lemma cast_u16_small z : in_u16 z -> cast_u16 z = z.
Proof. unfold in_u16, cast_u16. intros H. now apply Z.mod_small. Qed.

Lemma cast_u8_small z : in_u8 z -> cast_u8 z = z.
Proof. unfold in_u8, cast_u8. intros H. now apply Z.mod_small. Qed.

Lemma in_u8_u16 z : in_u8 z -> in_u16 z.
Proof. unfold in_u8, in_u16. lia. Qed.

Lemma cast_u8_low_bits z : cast_u8 z = Z.land z 255.
Proof.
  unfold cast_u8. change 255 with (Z.ones 8).
  rewrite Z.land_ones by lia. reflexivity.
Qed.

Lemma to_int_proper z : Z.to_int z <> Pos Nil /\ Z.to_int z <> Neg Nil.
Proof.
  destruct z as [|p|p]; simpl; split; try discriminate;
    intros [= H]; now apply (DecimalPos.Unsigned.to_uint_nonnil p).
Qed.

(** The text [to_string] produces is a decimal numeral of its argument. *)
Lemma of_string_to_string z : of_string (to_string z) = Some z.
Proof.
  unfold of_string, to_string.
  destruct (to_int_proper z) as [Hp Hn].
  rewrite NilZero.isi by assumption.
  simpl. now rewrite DecimalZ.of_to.
Qed.

Section Accessors.

Variable c : ModbusCell.

(** The coercing accessors in closed form: no [std::get] in them throws. *)
Lemma coil_run :
  coil c =
  let b := match _value c with
           | V_uint16 r => cast_bool r
           | V_uint8 v => cast_bool v
           | V_bool b => b
           end in
  (Ok b, mkCell (V_bool b)).
Proof. destruct c as [[r|v|b]]; reflexivity. Qed.

Lemma reg_run :
  reg c =
  let r := match _value c with
           | V_uint16 r => r
           | V_uint8 v => cast_u16 v
           | V_bool b => cast_u16 (Z_of_bool b)
           end in
  (Ok r, mkCell (V_uint16 r)).
Proof. destruct c as [[r|v|b]]; reflexivity. Qed.

Lemma val_run :
  val c =
  let v := match _value c with
           | V_uint16 r => cast_u8 r
           | V_uint8 v => v
           | V_bool b => cast_u8 (Z_of_bool b)
           end in
  (Ok v, mkCell (V_uint8 v)).
Proof. destruct c as [[r|v|b]]; reflexivity. Qed.

Lemma kind_inv_all : kind_inv c.
Proof. destruct c as [[r|v|b]]; reflexivity. Qed.

End Accessors.

Lemma exec_wf o c : wf c -> op_wf o -> wf (exec o c).
Proof.
  destruct o; simpl; unfold effect, coil_store, reg_store, val_store, bind;
    intros Hc Ho;
    rewrite ?coil_run, ?reg_run, ?val_run; simpl; auto;
    destruct c as [[r|v|b]]; unfold wf in *; simpl in *;
    auto using cast_u16_range, cast_u8_range.
Qed.

Lemma reachable_wf c : reachable c -> wf c.
Proof.
  induction 1 as [ | r Hr | b | v Hv | o c Hc IH Ho | c other _ _ _ IH ].
  - unfold wf, in_u16; simpl; lia.
  - exact Hr.
  - exact I.
  - exact Hv.
  - now apply exec_wf.
  - exact IH.
Qed.

Lemma holds_alternative_get T x : is_ok (get T x) = holds_alternative T x.
Proof. destruct T, x; reflexivity. Qed.

Lemma get_throws T x :
  holds_alternative T x = false -> get T x = Throw bad_variant_access.
Proof. destruct T, x; simpl; intros H; reflexivity || discriminate H. Qed.

Lemma get_variant_of T x a : get T x = Ok a <-> x = variant_of T a.
Proof.
  destruct T, x; simpl; split; intros H;
    try discriminate H; injection H as ->; reflexivity.
Qed.

(** ** Coercing accessors *)

(** C1. After the coercing accessor for a kind, that kind is the active
    one: its predicate holds, the two others do not, and strict access to
    the two other kinds throws. On a cell that is of the requested kind
    already, the accessor returns the stored value and leaves the cell as it
    was. *)
Theorem coercing_accessor_sets_kind
    (c : ModbusCell) (b : bool) (r : uint16_t) (v : uint8_t) :
  (active (_value (effect coil c)) = T_bool /\
   isCoil (effect coil c) = true /\
   isReg (effect coil c) = false /\ isVal (effect coil c) = false /\
   reg_const (effect coil c) = Throw bad_variant_access /\
   val_const (effect coil c) = Throw bad_variant_access) /\
  (active (_value (effect reg c)) = T_uint16 /\
   isReg (effect reg c) = true /\
   isCoil (effect reg c) = false /\ isVal (effect reg c) = false /\
   coil_const (effect reg c) = Throw bad_variant_access /\
   val_const (effect reg c) = Throw bad_variant_access) /\
  (active (_value (effect val c)) = T_uint8 /\
   isVal (effect val c) = true /\
   isCoil (effect val c) = false /\ isReg (effect val c) = false /\
   coil_const (effect val c) = Throw bad_variant_access /\
   reg_const (effect val c) = Throw bad_variant_access) /\
  coil (ModbusCell_coil b) = (Ok b, ModbusCell_coil b) /\
  reg (ModbusCell_reg r) = (Ok r, ModbusCell_reg r) /\
  val (ModbusCell_val v) = (Ok v, ModbusCell_val v).
Proof.
  unfold effect. rewrite coil_run, reg_run, val_run. simpl.
  repeat split; reflexivity.
Qed.

(** C2. Coercion to and from a coil. The coercing coil accessor on a
    register or value cell yields [false] for a stored 0 and [true] for
    every other stored number; the coercing register and value accessors on
    a coil cell yield 0 for [false] and 1 for [true]. In each case the cell
    is left holding what was yielded. *)
Theorem coil_coercion_rules (z : Z) (b : bool) :
  coil (ModbusCell_reg z) =
    (Ok (if z =? 0 then false else true),
     ModbusCell_coil (if z =? 0 then false else true)) /\
  coil (ModbusCell_val z) =
    (Ok (if z =? 0 then false else true),
     ModbusCell_coil (if z =? 0 then false else true)) /\
  reg (ModbusCell_coil b) =
    (Ok (if b then 1 else 0), ModbusCell_reg (if b then 1 else 0)) /\
  val (ModbusCell_coil b) =
    (Ok (if b then 1 else 0), ModbusCell_val (if b then 1 else 0)) /\
  coil (ModbusCell_reg 0) = (Ok false, ModbusCell_coil false) /\
  coil (ModbusCell_reg 5) = (Ok true, ModbusCell_coil true).
Proof.
  rewrite !coil_run, reg_run, val_run. simpl.
  unfold cast_bool, ModbusCell_coil, ModbusCell_reg, ModbusCell_val.
  repeat split; try reflexivity;
    try (destruct (z =? 0); reflexivity); destruct b; reflexivity.
Qed.

(** C3. Coercion between register and value. The coercing value accessor
    on a register cell holding [r] yields [r mod 256], the low 8 bits of
    [r], without an exception, and the cell becomes a value cell holding
    it; 300 gives 44. The coercing register accessor on a value cell holding
    an 8-bit [v] yields [v]. *)
Theorem register_value_coercion (r : uint16_t) (v : uint8_t) (Hv : in_u8 v) :
  val (ModbusCell_reg r) = (Ok (r mod 256), ModbusCell_val (r mod 256)) /\
  r mod 256 = Z.land r 255 /\
  in_u8 (r mod 256) /\
  val (ModbusCell_reg 300) = (Ok 44, ModbusCell_val 44) /\
  isVal (effect val (ModbusCell_reg 300)) = true /\
  reg (ModbusCell_val v) = (Ok v, ModbusCell_reg v).
Proof.
  rewrite !val_run, reg_run. simpl.
  repeat split.
  - apply (cast_u8_low_bits r).
  - apply (cast_u8_range r).
  - apply (cast_u8_range r).
  - now rewrite cast_u16_small by now apply in_u8_u16.
Qed.

Lemma register_value_coercion_witness :
  in_u8 200 /\ reg (ModbusCell_val 200) = (Ok 200, ModbusCell_reg 200).
Proof.
  assert (H : in_u8 200) by (unfold in_u8; lia).
  split; [exact H | apply (register_value_coercion 300 200 H)].
Defined.

(** C10. Going through a register loses nothing of the smaller kinds. From
    a value cell holding an 8-bit [v], the coercing register accessor
    followed by the coercing value accessor returns [v] and leaves the value
    cell holding [v]; from a coil cell holding [b], the coercing register
    accessor followed by the coercing coil accessor returns [b] and leaves
    the coil cell holding [b]. *)
Theorem coercion_through_register_lossless
    (v : uint8_t) (b : bool) (Hv : in_u8 v) :
  (reg ;;; val) (ModbusCell_val v) = (Ok v, ModbusCell_val v) /\
  isReg (effect reg (ModbusCell_val v)) = true /\
  (reg ;;; coil) (ModbusCell_coil b) = (Ok b, ModbusCell_coil b) /\
  isReg (effect reg (ModbusCell_coil b)) = true.
Proof.
  unfold bind, effect. rewrite !reg_run. simpl.
  rewrite val_run, coil_run. simpl.
  rewrite (cast_u16_small v) by now apply in_u8_u16.
  rewrite (cast_u8_small v) by assumption.
  repeat split. now destruct b.
Qed.

Lemma coercion_through_register_lossless_witness :
  in_u8 255 /\ (reg ;;; val) (ModbusCell_val 255) = (Ok 255, ModbusCell_val 255).
Proof.
  assert (H : in_u8 255) by (unfold in_u8; lia).
  split; [exact H | apply (coercion_through_register_lossless 255 true H)].
Defined.

(** ** Strict accessors *)

(** C4. A strict accessor returns the stored value exactly when its kind is
    the active one and throws [bad_variant_access] exactly when it is not;
    the call leaves the cell as it was, also when it throws. Nothing else
    throws: the coercing accessors and [toString] return on every cell. *)
Theorem strict_accessor_spec (c : ModbusCell) :
  ((forall b, coil_const c = Ok b <-> _value c = V_bool b) /\
   (coil_const c = Throw bad_variant_access <-> isCoil c = false) /\
   is_ok (coil_const c) = isCoil c) /\
  ((forall r, reg_const c = Ok r <-> _value c = V_uint16 r) /\
   (reg_const c = Throw bad_variant_access <-> isReg c = false) /\
   is_ok (reg_const c) = isReg c) /\
  ((forall v, val_const c = Ok v <-> _value c = V_uint8 v) /\
   (val_const c = Throw bad_variant_access <-> isVal c = false) /\
   is_ok (val_const c) = isVal c) /\
  (effect (const_try coil_const) c = c /\
   effect (const_try reg_const) c = c /\
   effect (const_try val_const) c = c) /\
  (is_ok (fst (coil c)) = true /\
   is_ok (fst (reg c)) = true /\
   is_ok (fst (val c)) = true /\
   is_ok (toString c) = true).
Proof.
  unfold effect, const_try. rewrite coil_run, reg_run, val_run.
  destruct c as [[r|v|b]]; cbn;
    repeat match goal with |- _ /\ _ => split end;
    try reflexivity; try intros x;
    (split; intros H; try discriminate H; try reflexivity;
     injection H as ->; reflexivity).
Qed.

(** ** Construction *)

(** C5. A cell constructed from a boolean is a coil cell and nothing else,
    and strict coil access returns the boolean; a cell constructed from a
    16-bit number is a register cell whose strict register access returns
    the number; a cell constructed from an 8-bit number is a value cell
    whose strict value access returns the number. The named constructors
    build the same cells. *)
Theorem construction_roundtrip
    (b : bool) (r : uint16_t) (v : uint8_t) (Hr : in_u16 r) (Hv : in_u8 v) :
  (isCoil (ModbusCell_coil b) = true /\
   isReg (ModbusCell_coil b) = false /\
   isVal (ModbusCell_coil b) = false /\
   coil_const (ModbusCell_coil b) = Ok b) /\
  (isReg (ModbusCell_reg r) = true /\
   isCoil (ModbusCell_reg r) = false /\
   isVal (ModbusCell_reg r) = false /\
   reg_const (ModbusCell_reg r) = Ok r /\
   wf (ModbusCell_reg r)) /\
  (isVal (ModbusCell_val v) = true /\
   isCoil (ModbusCell_val v) = false /\
   isReg (ModbusCell_val v) = false /\
   val_const (ModbusCell_val v) = Ok v /\
   wf (ModbusCell_val v)) /\
  (initCoil b = ModbusCell_coil b /\
   initReg r = ModbusCell_reg r /\
   initVal v = ModbusCell_val v).
Proof.
  repeat match goal with |- _ /\ _ => split end;
    reflexivity || assumption.
Qed.

Lemma construction_roundtrip_witness :
  in_u16 65535 /\ in_u8 255 /\
  reg_const (ModbusCell_reg 65535) = Ok 65535 /\
  val_const (ModbusCell_val 255) = Ok 255.
Proof.
  assert (Hr : in_u16 65535) by (unfold in_u16; lia).
  assert (Hv : in_u8 255) by (unfold in_u8; lia).
  split; [exact Hr | split; [exact Hv | ]].
  split; apply (construction_roundtrip true 65535 255 Hr Hv).
Defined.

(** C6. The default-constructed cell is a register cell holding 0. It is
    the cell constructed from the 16-bit number 0: the two are equal, so
    every predicate, accessor and computation behaves alike on them. *)
Theorem default_is_register_zero :
  (isReg ModbusCell_default = true /\
   isCoil ModbusCell_default = false /\
   isVal ModbusCell_default = false /\
   reg_const ModbusCell_default = Ok 0) /\
  ModbusCell_default = ModbusCell_reg 0 /\
  (forall o, exec o ModbusCell_default = exec o (ModbusCell_reg 0)) /\
  (forall A (m : M A), m ModbusCell_default = m (ModbusCell_reg 0)) /\
  (forall A (f : ModbusCell -> A), f ModbusCell_default = f (ModbusCell_reg 0)).
Proof.
  repeat match goal with |- _ /\ _ => split end; reflexivity.
Qed.

(** ** String rendering *)

(** C7. [toString] returns on every cell: the text "true" or "false" for a
    coil cell, and for a register or a value cell the decimal numeral of the
    stored number, which reads back as that number. A register cell holding
    42 renders as "42", a value cell holding 7 as "7". *)
Theorem toString_renders (c : ModbusCell) :
  toString c =
    Ok (match _value c with
        | V_bool true => "true"
        | V_bool false => "false"
        | V_uint16 r => to_string r
        | V_uint8 v => to_string v
        end) /\
  (forall z, of_string (to_string z) = Some z) /\
  toString (ModbusCell_coil true) = Ok "true" /\
  toString (ModbusCell_coil false) = Ok "false" /\
  toString (ModbusCell_reg 42) = Ok "42" /\
  toString (ModbusCell_val 7) = Ok "7" /\
  toString (ModbusCell_reg 65535) = Ok "65535" /\
  toString ModbusCell_default = Ok "0".
Proof.
  repeat match goal with |- _ /\ _ => split end;
    try reflexivity.
  - destruct c as [[r|v|[|]]]; reflexivity.
  - exact of_string_to_string.
Qed.

(** C9. [toString] calls the throwing strict accessors, and yet never
    throws: a kind predicate answers [true] exactly on the cells on which
    the strict accessor of that kind returns, the predicates leave the cell
    as it is, so on whichever branch [toString] takes the accessor called
    there returns. *)
Theorem toString_never_throws (c : ModbusCell) :
  (if isCoil c then is_ok (coil_const c)
   else if isReg c then is_ok (reg_const c)
        else is_ok (val_const c)) = true /\
  (isCoil c = is_ok (coil_const c) /\
   isReg c = is_ok (reg_const c) /\
   isVal c = is_ok (val_const c)) /\
  (effect (const_call isCoil) c = c /\ effect (const_call isReg) c = c) /\
  (forall e, toString c <> Throw e) /\
  is_ok (toString c) = true.
Proof.
  destruct c as [[r|v|b]];
    repeat match goal with |- _ /\ _ => split end;
    try reflexivity; intros e; discriminate.
Qed.

(** ** Kind invariant *)

(** C8. On every reachable cell exactly one of [isCoil], [isReg] and
    [isVal] answers [true], and the stored number fits the active kind.
    Calling a predicate leaves the cell as it is. The property holds of
    every constructed cell and again after every operation. *)
Theorem kind_predicates_exactly_one (c : ModbusCell) (Hc : reachable c) :
  (kind_inv c /\ wf c) /\
  (effect (const_call isCoil) c = c /\
   effect (const_call isReg) c = c /\
   effect (const_call isVal) c = c) /\
  (kind_inv ModbusCell_default /\
   forall b r v,
     kind_inv (ModbusCell_coil b) /\
     kind_inv (ModbusCell_reg r) /\
     kind_inv (ModbusCell_val v)) /\
  (forall o, op_wf o -> kind_inv (exec o c) /\ wf (exec o c)) /\
  (forall other,
     reachable other ->
     kind_inv (effect (operator_assign other) c) /\
     wf (effect (operator_assign other) c)).
Proof.
  pose proof (reachable_wf c Hc) as Hwf.
  repeat match goal with |- _ /\ _ => split end;
    try apply kind_inv_all; try reflexivity; try assumption.
  - intros b r v. repeat split.
  - intros o Ho. split; [apply kind_inv_all | now apply exec_wf].
  - intros other Ho. split; [apply kind_inv_all | now apply reachable_wf].
Qed.

Lemma kind_predicates_exactly_one_witness :
  reachable (exec call_coil (ModbusCell_reg 5)) /\
  kind_inv (exec call_coil (ModbusCell_reg 5)).
Proof.
  assert (H5 : in_u16 5) by (unfold in_u16; lia).
  assert (H : reachable (exec call_coil (ModbusCell_reg 5)))
    by exact (reach_exec call_coil _ (reach_reg 5 H5) I).
  split; [exact H | exact (proj1 (proj1 (kind_predicates_exactly_one _ H)))].
Defined.

(** ** Composition of the accessors *)

Lemma toString_run c :
  toString c =
    Ok (match _value c with
        | V_bool b => if b then "true" else "false"
        | V_uint16 r => to_string r
        | V_uint8 v => to_string v
        end).
Proof. destruct c as [[r|v|b]]; reflexivity. Qed.

Lemma to_string_inj z1 z2 : to_string z1 = to_string z2 -> z1 = z2.
Proof.
  intros H. apply (f_equal of_string) in H.
  rewrite !of_string_to_string in H. now injection H.
Qed.

Lemma to_string_not_bool z (b : bool) :
  to_string z <> (if b then "true" else "false").
Proof.
  intros H. apply (f_equal of_string) in H.
  rewrite of_string_to_string in H. destruct b; discriminate H.
Qed.

Lemma cast_u16_of_bool b : cast_u16 (Z_of_bool b) = Z_of_bool b.
Proof. now destruct b. Qed.

Lemma cast_u8_of_bool b : cast_u8 (Z_of_bool b) = Z_of_bool b.
Proof. now destruct b. Qed.

Lemma cast_bool_of_bool b : cast_bool (Z_of_bool b) = b.
Proof. now destruct b. Qed.

Lemma cast_u16_u8 z : cast_u16 (cast_u8 z) = cast_u8 z.
Proof. apply cast_u16_small, in_u8_u16, cast_u8_range. Qed.

Lemma mod_256_fix z : 0 <= z -> (z mod 256 = z <-> z < 256).
Proof.
  intros Hz. split; intros H.
  - rewrite <- H. apply Z.mod_pos_bound. lia.
  - apply Z.mod_small. lia.
Qed.

Ltac run_accessors :=
  unfold bind, effect, const_try;
  repeat (rewrite ?coil_run, ?reg_run, ?val_run;
          cbn [_value fst snd variant_of
               ModbusCell_reg ModbusCell_coil ModbusCell_val]).

(** X1. Calling a coercing accessor a second time changes nothing: the
    second call returns what the first returned and leaves the cell the
    first call left. *)
Theorem coercing_accessor_idempotent (c : ModbusCell) :
  (coil ;;; coil) c = coil c /\
  (reg ;;; reg) c = reg c /\
  (val ;;; val) c = val c.
Proof. run_accessors. repeat split. Qed.

(** X2. Right after a coercing accessor, the strict accessor of the same
    kind does not throw: it returns the value the coercing accessor
    returned, on every cell. *)
Theorem strict_after_coercing (c : ModbusCell) :
  (coil ;;; const_try coil_const) c = coil c /\
  (reg ;;; const_try reg_const) c = reg c /\
  (val ;;; const_try val_const) c = val c.
Proof. run_accessors. repeat split. Qed.

(** X3. On a cell whose number fits its type, [reg()] returns the number
    the cell stands for, and a detour through [reg()] changes neither what
    [coil()] nor what [val()] returns and leaves behind. *)
Theorem reg_keeps_number (c : ModbusCell) (Hwf : wf c) :
  reg c = (Ok (stored c), ModbusCell_reg (stored c)) /\
  (reg ;;; coil) c = coil c /\
  (reg ;;; val) c = val c.
Proof.
  run_accessors.
  destruct c as [[r|v|b]]; unfold wf, stored in *; cbn [_value] in *.
  - repeat split.
  - rewrite (cast_u16_small v) by now apply in_u8_u16.
    rewrite (cast_u8_small v) by assumption. repeat split.
  - rewrite cast_u16_of_bool, cast_bool_of_bool. repeat split.
Qed.

Lemma reg_keeps_number_witness :
  wf (ModbusCell_val 200) /\
  (reg ;;; coil) (ModbusCell_val 200) = coil (ModbusCell_val 200).
Proof.
  assert (H : wf (ModbusCell_val 200)) by (unfold wf, in_u8; simpl; lia).
  split; [exact H | exact (proj1 (proj2 (reg_keeps_number _ H)))].
Defined.

(** X4. On a register cell, [coil()] after [val()] looks at the low 8 bits
    only: it returns [false] for every multiple of 256. It agrees with
    [coil()] called directly exactly when the register is 0 or not a
    multiple of 256; for 256 the direct call gives [true], the call after
    [val()] gives [false]. *)
Theorem coil_after_val_sees_low_byte (r : uint16_t) :
  (val ;;; coil) (ModbusCell_reg r) =
    (Ok (negb (r mod 256 =? 0)), ModbusCell_coil (negb (r mod 256 =? 0))) /\
  ((val ;;; coil) (ModbusCell_reg r) = coil (ModbusCell_reg r) <->
   (r mod 256 = 0 -> r = 0)) /\
  coil (ModbusCell_reg 256) = (Ok true, ModbusCell_coil true) /\
  (val ;;; coil) (ModbusCell_reg 256) = (Ok false, ModbusCell_coil false).
Proof.
  run_accessors. unfold cast_bool, cast_u8, ModbusCell_coil.
  change (2 ^ 8) with 256. cbn [variant_of].
  repeat split.
  - intros H Hm. rewrite Hm in H. cbn [Z.eqb negb] in H.
    destruct (Z.eqb_spec r 0) as [E|E]; [exact E | discriminate H].
  - intros H.
    destruct (Z.eqb_spec (r mod 256) 0) as [E|E];
      destruct (Z.eqb_spec r 0) as [E'|E']; try reflexivity.
    + now elim E'; apply H.
    + subst r. now elim E.
Qed.

(** X5. A register coerced to a value and back keeps its low 8 bits only:
    the round trip returns [r mod 256], and it gives a 16-bit [r] back
    exactly when [r < 256]. *)
Theorem register_through_value (r : uint16_t) (Hr : in_u16 r) :
  (val ;;; reg) (ModbusCell_reg r) =
    (Ok (r mod 256), ModbusCell_reg (r mod 256)) /\
  ((val ;;; reg) (ModbusCell_reg r) = (Ok r, ModbusCell_reg r) <-> r < 256).
Proof.
  run_accessors. rewrite cast_u16_u8. unfold cast_u8.
  change (2 ^ 8) with 256.
  split; [reflexivity | ].
  destruct Hr as [Hr _]. rewrite <- (mod_256_fix r Hr).
  split; intros H.
  - now injection H.
  - now rewrite H.
Qed.

Lemma register_through_value_witness :
  in_u16 300 /\
  (val ;;; reg) (ModbusCell_reg 300) = (Ok 44, ModbusCell_reg 44).
Proof.
  assert (H : in_u16 300) by (unfold in_u16; lia).
  split; [exact H | exact (proj1 (register_through_value 300 H))].
Defined.

(** X6. A number coerced to a coil and back is 0 or 1: [coil()] followed by
    [reg()] on a register cell, or by [val()] on a value cell, returns 0 for
    0 and 1 for every other number, so it gives the number back exactly when
    the number is at most 1. *)
Theorem number_through_coil (z : Z) (Hz : in_u16 z) :
  (coil ;;; reg) (ModbusCell_reg z) =
    (Ok (if z =? 0 then 0 else 1), ModbusCell_reg (if z =? 0 then 0 else 1)) /\
  (coil ;;; val) (ModbusCell_val z) =
    (Ok (if z =? 0 then 0 else 1), ModbusCell_val (if z =? 0 then 0 else 1)) /\
  ((coil ;;; reg) (ModbusCell_reg z) = (Ok z, ModbusCell_reg z) <-> z <= 1) /\
  ((coil ;;; val) (ModbusCell_val z) = (Ok z, ModbusCell_val z) <-> z <= 1).
Proof.
  run_accessors. rewrite cast_u16_of_bool, cast_u8_of_bool.
  unfold cast_bool, ModbusCell_reg, ModbusCell_val. cbn [variant_of].
  destruct Hz as [Hz _].
  destruct (Z.eqb_spec z 0) as [E|E]; cbn [negb Z_of_bool];
    repeat split; intros H; try lia;
    try (injection H as H; lia);
    try (replace z with 1 by lia; reflexivity);
    try (replace z with 0 by lia; reflexivity).
Qed.

Lemma number_through_coil_witness :
  in_u16 5 /\ (coil ;;; reg) (ModbusCell_reg 5) = (Ok 1, ModbusCell_reg 1).
Proof.
  assert (H : in_u16 5) by (unfold in_u16; lia).
  split; [exact H | exact (proj1 (number_through_coil 5 H))].
Defined.

(** *** Sequences of calls *)

Lemma coerce_reads_as T b c :
  reads_as b c -> exists c', coerce T c = (Ok tt, c') /\ reads_as b c'.
Proof.
  intros [-> | [-> | ->]]; destruct T; unfold coerce;
    run_accessors; cbn [ret];
    rewrite ?cast_u16_of_bool, ?cast_u8_of_bool, ?cast_bool_of_bool;
    eexists; (split; [reflexivity | unfold reads_as; auto]).
Qed.

Lemma coerce_all_reads_as l : forall b c,
  reads_as b c -> exists c', coerce_all l c = (Ok tt, c') /\ reads_as b c'.
Proof.
  induction l as [|T l IH]; intros b c Hc; cbn [coerce_all].
  - exists c. split; [reflexivity | exact Hc].
  - destruct (coerce_reads_as T b c Hc) as (c1 & E1 & H1).
    destruct (IH b c1 H1) as (c2 & E2 & H2).
    exists c2. unfold bind. rewrite E1. split; assumption.
Qed.

Lemma coil_reads_as b c : reads_as b c -> coil c = (Ok b, ModbusCell_coil b).
Proof.
  intros [-> | [-> | ->]]; run_accessors;
    rewrite ?cast_bool_of_bool; reflexivity.
Qed.

(** X7. Once [coil()] was called, the boolean it returned survives every
    further sequence of coercing accessor calls: after any such sequence
    [coil()] returns the same boolean and leaves the same coil cell. *)
Theorem coil_survives_coercions (c : ModbusCell) (l : list alt) :
  (coil ;;; coerce_all l ;;; coil) c = coil c.
Proof.
  unfold bind at 1. rewrite coil_run.
  set (b := match _value c with
            | V_uint16 r => cast_bool r
            | V_uint8 v => cast_bool v
            | V_bool b => b
            end).
  cbv zeta.
  assert (H0 : reads_as b (mkCell (V_bool b))) by (left; reflexivity).
  destruct (coerce_all_reads_as l b _ H0) as (c' & E & H').
  unfold bind. rewrite E. now apply coil_reads_as.
Qed.

Lemma coerce_small T c :
  in_u8 (stored c) -> T <> T_bool ->
  exists c', coerce T c = (Ok tt, c') /\ stored c' = stored c.
Proof.
  intros Hc HT. destruct T; [ | | now elim HT ];
    unfold coerce; run_accessors; cbn [ret];
    eexists; (split; [reflexivity | ]);
    destruct c as [[r|v|b]]; unfold stored in *; cbn [_value] in *;
    rewrite ?cast_u16_of_bool, ?cast_u8_of_bool;
    try reflexivity.
  - now apply cast_u16_small, in_u8_u16.
  - now apply cast_u8_small.
Qed.

Lemma coerce_all_small l : forall c,
  in_u8 (stored c) -> Forall (fun T => T <> T_bool) l ->
  exists c', coerce_all l c = (Ok tt, c') /\ stored c' = stored c.
Proof.
  induction l as [|T l IH]; intros c Hc Hl; cbn [coerce_all].
  - exists c. split; reflexivity.
  - inversion Hl as [|T' l' HT Hl']; subst.
    destruct (coerce_small T c Hc HT) as (c1 & E1 & H1).
    destruct (IH c1) as (c2 & E2 & H2); [now rewrite H1 | assumption | ].
    exists c2. unfold bind. rewrite E1. split; [assumption | congruence].
Qed.

(** X8. A number below 256 survives every sequence of [reg()] and [val()]
    calls: on a cell that stands for such a number, after any sequence of
    these calls both [val()] and [reg()] return that number. *)
Theorem small_number_survives
    (c : ModbusCell) (l : list alt)
    (Hc : in_u8 (stored c)) (Hl : Forall (fun T => T <> T_bool) l) :
  (coerce_all l ;;; val) c = (Ok (stored c), ModbusCell_val (stored c)) /\
  (coerce_all l ;;; reg) c = (Ok (stored c), ModbusCell_reg (stored c)).
Proof.
  destruct (coerce_all_small l c Hc Hl) as (c' & E & H').
  unfold bind. rewrite E. rewrite <- H' in *.
  run_accessors.
  destruct c' as [[r|v|b]]; unfold stored in *; cbn [_value] in *;
    rewrite ?cast_u16_of_bool, ?cast_u8_of_bool;
    rewrite ?(cast_u8_small _ Hc), ?(cast_u16_small _ (in_u8_u16 _ Hc));
    split; reflexivity.
Qed.

Lemma small_number_survives_witness :
  in_u8 (stored (ModbusCell_reg 200)) /\
  Forall (fun T => T <> T_bool) (T_uint8 :: T_uint16 :: T_uint8 :: nil) /\
  (coerce_all (T_uint8 :: T_uint16 :: T_uint8 :: nil) ;;; reg)
    (ModbusCell_reg 200) = (Ok 200, ModbusCell_reg 200).
Proof.
  assert (Hc : in_u8 (stored (ModbusCell_reg 200)))
    by (unfold in_u8, stored; simpl; lia).
  assert (Hl : Forall (fun T => T <> T_bool)
                 (T_uint8 :: T_uint16 :: T_uint8 :: nil))
    by (repeat constructor; discriminate).
  split; [exact Hc | split; [exact Hl | ]].
  exact (proj2 (small_number_survives _ _ Hc Hl)).
Defined.

(** *** Stores through the returned reference *)


(** *** Rendering *)

(** X10. The text of a cell tells whether it is a coil and which number it
    stands for: two cells with the same text are both coils or both
    numbers, and stand for the same number. Only the difference between a
    register and a value is not in the text. *)
Theorem toString_determines_cell
    (c1 c2 : ModbusCell) (H : toString c1 = toString c2) :
  isCoil c1 = isCoil c2 /\ stored c1 = stored c2.
Proof.
  rewrite !toString_run in H. injection H as H.
  destruct c1 as [[r1|v1|b1]], c2 as [[r2|v2|b2]];
    unfold stored; cbn [_value] in *;
    try (apply to_string_inj in H; subst; split; reflexivity);
    try (now apply to_string_not_bool in H);
    try (symmetry in H; now apply to_string_not_bool in H).
  destruct b1, b2; try discriminate H; split; reflexivity.
Qed.

Lemma toString_determines_cell_witness :
  toString (ModbusCell_reg 7) = toString (ModbusCell_val 7) /\
  stored (ModbusCell_reg 7) = stored (ModbusCell_val 7).
Proof.
  assert (H : toString (ModbusCell_reg 7) = toString (ModbusCell_val 7))
    by reflexivity.
  split; [exact H | exact (proj2 (toString_determines_cell _ _ H))].
Defined.

(** X11. On a register or value cell whose number fits its type, [reg()]
    does not change the text of the cell, and [val()] leaves the text
    unchanged exactly when the number is below 256. *)
Theorem toString_after_coercion
    (c : ModbusCell) (Hk : isCoil c = false) (Hwf : wf c) :
  toString (effect reg c) = toString c /\
  (toString (effect val c) = toString c <-> stored c < 256).
Proof.
  rewrite !toString_run. run_accessors.
  destruct c as [[r|v|b]]; [ | | discriminate Hk ];
    unfold wf, stored in *; cbn [_value] in *.
  - split; [reflexivity | ].
    destruct Hwf as [H0 _]. rewrite <- (mod_256_fix r H0).
    unfold cast_u8. change (2 ^ 8) with 256.
    split; intros H.
    + injection H as H. now apply to_string_inj.
    + now rewrite H.
  - rewrite (cast_u16_small v) by now apply in_u8_u16.
    split; [reflexivity | ].
    split; intros _; [apply Hwf | reflexivity].
Qed.

Lemma toString_after_coercion_witness :
  isCoil (ModbusCell_reg 300) = false /\ wf (ModbusCell_reg 300) /\
  ~ toString (effect val (ModbusCell_reg 300)) = toString (ModbusCell_reg 300).
Proof.
  assert (Hk : isCoil (ModbusCell_reg 300) = false) by reflexivity.
  assert (Hwf : wf (ModbusCell_reg 300)) by (unfold wf, in_u16; simpl; lia).
  split; [exact Hk | split; [exact Hwf | ]].
  intros H.
  apply (proj1 (proj2 (toString_after_coercion _ Hk Hwf))) in H.
  unfold stored in H; simpl in H; lia.
Defined.

End MB.
